(** * Conway's Game of Life (afroash/gameoflife, main.go): a shallow embedding

    The Go program keeps its state in a [World] struct whose [liveCells]
    field is a [map[tile]struct{}] used as a set; it is modelled as a
    [gset tile].  Go's [int] is 64-bit; coordinates are modelled as [Z]:
    a reachable live cell starts inside the 40x40 grid and moves by at most
    one unit per generation, so no coordinate of a reachable state comes
    near the 64-bit range and the wrap-around never occurs. *)

From Stdlib Require Import ZArith.
From stdpp Require Import base gmap list sets.

Local Open Scope Z_scope.

(** The [const] block of main.go. *)
Module Const.
Definition screenWidth : Z := 800.
Definition screenHeight : Z := 800.
Definition tileSize : Z := 20.
Definition gridTop : Z := 20.
Definition gridWidth : Z := Z.quot screenWidth tileSize.
Definition gridHeight : Z := Z.quot screenHeight tileSize.
Definition gridSize : Z := Z.quot screenWidth tileSize.
End Const.

(** [type tile struct { x, y int }] *)
Record tile := Tile { tx : Z; ty : Z }.

#[global] Instance tile_eq_dec : EqDecision tile.
Proof. solve_decision. Defined.

#[global] Instance tile_countable : Countable tile :=
  inj_countable' (fun t => (tx t, ty t)) (fun p => Tile p.1 p.2)
    (fun t => match t with Tile _ _ => eq_refl end).

(** [type World struct {...}]; [lastUpdate] is a time stamp in nanoseconds. *)
Record World := MkWorld {
  screenWidth : Z;
  screenHeight : Z;
  tileSize : Z;
  gridWidth : Z;
  gridHeight : Z;
  gridSize : Z;
  gridTop : Z;
  alive : bool;
  liveCells : gset tile;
  isSimulating : bool;
  lastUpdate : Z
}.

(** Assignment to [w.liveCells]. *)
Definition set_liveCells (w : World) (s : gset tile) : World :=
  {| screenWidth := screenWidth w; screenHeight := screenHeight w;
     tileSize := tileSize w; gridWidth := gridWidth w;
     gridHeight := gridHeight w; gridSize := gridSize w; gridTop := gridTop w;
     alive := alive w; liveCells := s; isSimulating := isSimulating w;
     lastUpdate := lastUpdate w |}.

(** Assignment to [w.isSimulating]. *)
Definition set_isSimulating (w : World) (b : bool) : World :=
  {| screenWidth := screenWidth w; screenHeight := screenHeight w;
     tileSize := tileSize w; gridWidth := gridWidth w;
     gridHeight := gridHeight w; gridSize := gridSize w; gridTop := gridTop w;
     alive := alive w; liveCells := liveCells w; isSimulating := b;
     lastUpdate := lastUpdate w |}.

(** [NewWorld(screenWidth, screenHeight, tileSize)]; [now] is [time.Now()]. *)
Definition NewWorld (sw sh ts now : Z) : World :=
  {| screenWidth := sw; screenHeight := sh; tileSize := ts;
     gridWidth := Const.gridWidth; gridHeight := Const.gridHeight;
     gridSize := Const.gridSize; gridTop := Const.gridTop;
     alive := false; liveCells := ∅; isSimulating := false;
     lastUpdate := now |}.

(** The world built by [main]. *)
Definition initialWorld : World :=
  NewWorld Const.screenWidth Const.screenHeight Const.tileSize 0.

(** The offsets visited by the loops
    [for i := -1; i <= 1; i++ { for j := -1; j <= 1; j++ { if i == 0 && j == 0 { continue } ... } }],
    in loop order. *)
Definition neighbor_offsets : list (Z * Z) :=
  flat_map (fun i =>
    flat_map (fun j => if (i =? 0) && (j =? 0) then [] else [(i, j)])
      [-1; 0; 1]) [-1; 0; 1].

(** [countLiveNeighbors(x, y)]: the counter is incremented for every offset
    whose cell is a key of [w.liveCells]. *)
Definition countLiveNeighbors (w : World) (x y : Z) : Z :=
  fold_left (fun liveNeighbors '(i, j) =>
      if bool_decide (Tile (x + i) (y + j) ∈ liveCells w)
      then liveNeighbors + 1 else liveNeighbors)
    neighbor_offsets 0.

(** The body of the [for cell := range w.liveCells] loop of [SimulateWorld]. *)
Definition simulate_cell (w : World) (nextGeneration : gset tile) (cell : tile)
    : gset tile :=
  let liveNeighbors := countLiveNeighbors w (tx cell) (ty cell) in
  let next1 :=
    if (liveNeighbors =? 2) || (liveNeighbors =? 3)
    then {[cell]} ∪ nextGeneration else nextGeneration in
  fold_left (fun acc '(i, j) =>
      let neighborX := tx cell + i in
      let neighborY := ty cell + j in
      if countLiveNeighbors w neighborX neighborY =? 3
      then {[Tile neighborX neighborY]} ∪ acc else acc)
    neighbor_offsets next1.

(** The next generation when [range w.liveCells] visits the cells in the
    order [order]; Go leaves the iteration order of a map unspecified. *)
Definition nextGeneration_in (w : World) (order : list tile) : gset tile :=
  fold_left (simulate_cell w) order ∅.

(** [SimulateWorld] with iteration order [order]. *)
Definition SimulateWorld_in (w : World) (order : list tile) : World :=
  set_liveCells (set_isSimulating w true) (nextGeneration_in w order).

(** [SimulateWorld], iterating in the order of [elements]. *)
Definition SimulateWorld (w : World) : World :=
  SimulateWorld_in w (elements (liveCells w)).

(** Lines 111-119 of [handleMouseClick], once the cell coordinates are
    computed: the range check, then the toggle of the clicked cell. *)
Definition toggleCell (w : World) (cellX cellY : Z) : World :=
  if (cellX <? 0) || (cellX >=? gridWidth w) || (cellY <? 0) || (cellY >=? gridHeight w)
  then w
  else
    let clickedCell := Tile cellX cellY in
    if bool_decide (clickedCell ∈ liveCells w)
    then set_liveCells w (liveCells w ∖ {[clickedCell]})
    else set_liveCells w ({[clickedCell]} ∪ liveCells w).

(** [handleMouseClick(x, y)]; [pressed] is
    [ebiten.IsMouseButtonPressed(ebiten.MouseButtonLeft)].  Go's integer
    division truncates toward zero, which is [Z.quot]. *)
Definition handleMouseClick (pressed : bool) (w : World) (x y : Z) : World :=
  if negb pressed then w
  else
    let cellX := Z.quot x (tileSize w) in
    let cellY := Z.quot (y - gridTop w) (tileSize w) in
    toggleCell w cellX cellY.

(** ** Randomness

    The global generator of [math/rand] is modelled as a source [draw] of
    raw values, read at a position that is threaded through the calls.
    [rand.Intn(n)] panics when [n <= 0] ([None]) and otherwise returns a
    value in [[0, n)]. *)
Definition RandM (A : Type) : Type := nat -> option (A * nat).

Definition rret {A} (a : A) : RandM A := fun i => Some (a, i).

Definition rbind {A B} (m : RandM A) (k : A -> RandM B) : RandM B :=
  fun i => match m i with Some (a, i') => k a i' | None => None end.

Definition Intn (draw : nat -> Z) (n : Z) : RandM Z :=
  fun i => if n <=? 0 then None else Some (draw i mod n, S i).

(** The loop [for i := 0; i < numCells; i++ { x := rand.Intn(w.gridWidth);
    y := rand.Intn(w.gridHeight); w.liveCells[tile{x: x, y: y}] = struct{}{} }]. *)
Fixpoint insertRandomCells (draw : nat -> Z) (k : nat) (w : World) : RandM World :=
  match k with
  | O => rret w
  | S k' =>
      rbind (Intn draw (gridWidth w)) (fun x =>
      rbind (Intn draw (gridHeight w)) (fun y =>
      insertRandomCells draw k' (set_liveCells w ({[Tile x y]} ∪ liveCells w))))
  end.

(** [generateRandomCells].  The statement
    [rand.New(rand.NewSource(time.Now().UnixNano()))] discards the generator
    it builds and has no effect on the global source. *)
Definition generateRandomCells (draw : nat -> Z) (w : World) : RandM World :=
  let w0 := set_liveCells w ∅ in
  let totalCells := gridWidth w * gridHeight w in
  rbind (Intn draw (Z.quot totalCells 5 + Z.quot totalCells 5)) (fun numCells =>
  insertRandomCells draw (Z.to_nat numCells) w0).

(** The literal [gliderGun] of [generateGosperGliderGun]. *)
Definition gliderGun : list tile :=
  map (fun p => Tile p.1 p.2)
  [(1, 5); (1, 6); (2, 5); (2, 6);
   (11, 5); (11, 6); (11, 7);
   (12, 4); (12, 8);
   (13, 3); (13, 9);
   (14, 3); (14, 9);
   (15, 6);
   (16, 4); (16, 8);
   (17, 5); (17, 6); (17, 7);
   (18, 6);
   (21, 3); (21, 4); (21, 5);
   (22, 3); (22, 4); (22, 5);
   (23, 2); (23, 6);
   (25, 1); (25, 2); (25, 6); (25, 7);
   (35, 3); (35, 4);
   (36, 3); (36, 4)].

(** [generateGosperGliderGun]: clear, then insert every cell of the list. *)
Definition generateGosperGliderGun (w : World) : World :=
  let w0 := set_liveCells w ∅ in
  set_liveCells w0
    (fold_left (fun s cell => {[cell]} ∪ s) gliderGun (liveCells w0)).

(** The reset branch of [Game.Update] (R key, lines 256-259). *)
Definition resetWorld (w : World) : World :=
  set_isSimulating (set_liveCells w ∅) false.

(** The pause branch of [Game.Update] (P key, lines 267-269). *)
Definition pauseWorld (w : World) : World := set_isSimulating w false.

(** ** Specification-side definitions *)

(** Chebyshev distance exactly 1. *)
Definition adjacent (c d : tile) : Prop :=
  c ≠ d /\ Z.abs (tx c - tx d) <= 1 /\ Z.abs (ty c - ty d) <= 1.

#[global] Instance adjacent_dec c d : Decision (adjacent c d).
Proof. unfold adjacent. solve_decision. Defined.

(** The number of live cells at Chebyshev distance 1 from [c]. *)
Definition live_neighbors_spec (live : gset tile) (c : tile) : nat :=
  size (filter (adjacent c) live).

(** The standard Game-of-Life rule, as the claim states it. *)
Definition gol_next_spec (live : gset tile) (c : tile) : Prop :=
  (c ∈ live /\ (live_neighbors_spec live c = 2%nat \/ live_neighbors_spec live c = 3%nat))
  \/ ((c ∉ live) /\ (exists d, d ∈ live /\ adjacent c d)
      /\ live_neighbors_spec live c = 3%nat).

(** Shifting a tile by an offset. *)
Definition shift (c : tile) (o : Z * Z) : tile := Tile (tx c + o.1) (ty c + o.2).

(** What one iteration of the [range w.liveCells] loop, for the live cell
    [d], contributes to the next generation. *)
Definition cell_contrib (w : World) (d c : tile) : Prop :=
  (c = d /\ (countLiveNeighbors w (tx d) (ty d) = 2 \/ countLiveNeighbors w (tx d) (ty d) = 3))
  \/ (exists o, o ∈ neighbor_offsets /\ c = shift d o
        /\ countLiveNeighbors w (tx c) (ty c) = 3).

(** A coordinate inside the declared grid of [w]. *)
Definition in_grid (w : World) (c : tile) : Prop :=
  0 <= tx c < gridWidth w /\ 0 <= ty c < gridHeight w.

(** A vertical blinker on the left edge of the grid of [main]'s world. *)
Definition edge_blinker : World :=
  set_liveCells initialWorld (list_to_set [Tile 0 0; Tile 0 1; Tile 0 2]).

(** [main]'s world with the simulation running. *)
Definition running_world : World := set_isSimulating initialWorld true.

(** ** The frame update, drawing and layout *)

(** Assignment to [w.lastUpdate]. *)
Definition set_lastUpdate (w : World) (t : Z) : World :=
  {| screenWidth := screenWidth w; screenHeight := screenHeight w;
     tileSize := tileSize w; gridWidth := gridWidth w;
     gridHeight := gridHeight w; gridSize := gridSize w; gridTop := gridTop w;
     alive := alive w; liveCells := liveCells w; isSimulating := isSimulating w;
     lastUpdate := t |}.

(** The input queries [Game.Update] makes in one frame: held keys
    ([ebiten.IsKeyPressed]), keys pressed in this frame
    ([inpututil.IsKeyJustPressed]), the left mouse button and the cursor
    position ([ebiten.CursorPosition]). *)
Record Input := MkInput {
  keyEscape : bool;
  keyQ : bool;
  keyG : bool;
  keyRJust : bool;
  keySpace : bool;
  keySJust : bool;
  keyP : bool;
  key1Just : bool;
  mouseLeft : bool;
  cursorX : Z;
  cursorY : Z
}.

(** A frame in which no key and no mouse button is pressed. *)
Definition idleInput (cx cy : Z) : Input :=
  {| keyEscape := false; keyQ := false; keyG := false; keyRJust := false;
     keySpace := false; keySJust := false; keyP := false; key1Just := false;
     mouseLeft := false; cursorX := cx; cursorY := cy |}.

(** The result of [Game.Update]: [ebiten.Termination] or [nil]. *)
Inductive Outcome := Termination | Continue.

(** [300*time.Millisecond], in nanoseconds. *)
Definition stepInterval : Z := 300000000.

(** [Game.Update] for one frame at time [now] (nanoseconds, the clock of
    [time.Since]); [None] is a panic of [rand.Intn]. *)
Definition Update (draw : nat -> Z) (inp : Input) (now : Z) (w : World)
    : RandM (Outcome * World) :=
  if keyEscape inp || keyQ inp then rret (Termination, w)
  else
  rbind (if keyG inp then generateRandomCells draw w else rret w) (fun w1 =>
  let w2 := if keyRJust inp then resetWorld w1 else w1 in
  let w3 := if keySpace inp || keySJust inp then SimulateWorld w2 else w2 in
  let w4 := if keyP inp then pauseWorld w3 else w3 in
  let w5 := if key1Just inp then generateGosperGliderGun w4 else w4 in
  let w6 :=
    if isSimulating w5 && (now - lastUpdate w5 >? stepInterval)
    then set_lastUpdate (SimulateWorld w5) now else w5 in
  let w7 :=
    if mouseLeft inp
    then handleMouseClick (mouseLeft inp) w6 (cursorX inp) (cursorY inp)
    else w6 in
  rret (Continue, w7)).

(** [Game.Layout]: the logical screen is 800 x 800 pixels. *)
Definition Layout (outsideWidth outsideHeight : Z) : Z * Z := (800, 800).

(** A frame in which only the space bar is held. *)
Definition spaceInput (cx cy : Z) : Input :=
  {| keyEscape := false; keyQ := false; keyG := false; keyRJust := false;
     keySpace := true; keySJust := false; keyP := false; key1Just := false;
     mouseLeft := false; cursorX := cx; cursorY := cy |}.

(** Frames used as concrete examples: R pressed with G held, and P held
    with space, the pattern key and the mouse button. *)
Definition resetInputG : Input := MkInput false false true true false false false false false 5 7.
Definition pauseInputMix : Input := MkInput false false false false true false true true true 5 7.





(** Every live cell lies in the box [[a, b] x [c, d]]. *)
Definition in_box (s : gset tile) (a b c d : Z) : Prop :=
  set_Forall (fun t => a <= tx t <= b /\ c <= ty t <= d) s.

(** Every live cell of [w] lies inside its grid. *)
Definition all_in_grid (w : World) : Prop :=
  set_Forall (in_grid w) (liveCells w).

#[global] Instance in_grid_dec w c : Decision (in_grid w c).
Proof. unfold in_grid. solve_decision. Defined.

(** The translation of a set of cells by [v]. *)
Definition translate (v : Z * Z) (s : gset tile) : gset tile :=
  set_map (fun t => shift t v) s.

(** * Neighbour counting *)

Lemma elem_of_neighbor_offsets i j :
  (i, j) ∈ neighbor_offsets <-> -1 <= i <= 1 /\ -1 <= j <= 1 /\ ~ (i = 0 /\ j = 0).
Proof.
  unfold neighbor_offsets; simpl. rewrite !elem_of_cons, elem_of_nil. split.
  - intros H. repeat destruct H as [H|H]; try contradiction;
      injection H as -> ->; lia.
  - intros (Hi & Hj & Hnz).
    assert (i = -1 \/ i = 0 \/ i = 1) as [Ei|[Ei|Ei]] by lia;
    assert (j = -1 \/ j = 0 \/ j = 1) as [Ej|[Ej|Ej]] by lia;
    subst; first [exfalso; lia | naive_solver].
Qed.

Lemma NoDup_neighbor_offsets : NoDup neighbor_offsets.
Proof. apply (bool_decide_unpack (NoDup neighbor_offsets)). vm_compute. exact I. Qed.

Lemma adjacent_offset c d :
  adjacent c d <-> (tx d - tx c, ty d - ty c) ∈ neighbor_offsets.
Proof.
  rewrite elem_of_neighbor_offsets. unfold adjacent.
  destruct c as [cx cy], d as [dx dy]; simpl. split.
  - intros (Hne & Hx & Hy). repeat split; try lia.
    intros [? ?]. apply Hne. f_equal; lia.
  - intros (Hx & Hy & Hnz). repeat split; try lia.
    intros Heq. injection Heq as -> ->. lia.
Qed.

Lemma shift_offset d c : shift d (tx c - tx d, ty c - ty d) = c.
Proof. destruct c, d; unfold shift; simpl; f_equal; lia. Qed.

Lemma count_fold (live : gset tile) x y l acc :
  fold_left (fun liveNeighbors '(i, j) =>
      if bool_decide (Tile (x + i) (y + j) ∈ live)
      then liveNeighbors + 1 else liveNeighbors) l acc
  = acc + Z.of_nat (length (filter (fun o => Tile (x + o.1) (y + o.2) ∈ live) l)).
Proof.
  revert acc. induction l as [|[i j] l IH]; intros acc; simpl; [lia|].
  rewrite IH, filter_cons. simpl.
  case_bool_decide; [rewrite decide_True by done | rewrite decide_False by done];
    simpl; lia.
Qed.

Lemma countLiveNeighbors_length w x y :
  countLiveNeighbors w x y
  = Z.of_nat (length (filter (fun o => Tile (x + o.1) (y + o.2) ∈ liveCells w)
                        neighbor_offsets)).
Proof. unfold countLiveNeighbors. rewrite count_fold. lia. Qed.

Lemma live_neighbors_spec_length (live : gset tile) c :
  live_neighbors_spec live c
  = length (filter (fun o => shift c o ∈ live) neighbor_offsets).
Proof.
  unfold live_neighbors_spec.
  rewrite <- (length_fmap (shift c)).
  rewrite <- (size_list_to_set (C := gset tile)).
  2:{ apply NoDup_fmap_2_strong; [|apply NoDup_filter, NoDup_neighbor_offsets].
      intros [i j] [i' j'] _ _ Heq. unfold shift in Heq; simpl in Heq.
      injection Heq as Hi Hj. f_equal; lia. }
  f_equal. apply set_eq. intros d.
  rewrite elem_of_filter, elem_of_list_to_set, list_elem_of_fmap. split.
  - intros [Hadj Hd]. exists (tx d - tx c, ty d - ty c).
    rewrite shift_offset, list_elem_of_filter, shift_offset.
    split; [done|]. split; [done|]. by apply adjacent_offset.
  - intros ([i j] & -> & Ho). apply list_elem_of_filter in Ho as [Hin Ho].
    split; [|done]. apply adjacent_offset.
    destruct c as [cx cy]; unfold shift; simpl.
    replace (cx + i - cx) with i by lia. replace (cy + j - cy) with j by lia.
    exact Ho.
Qed.

(** The code's count is the number of live cells at Chebyshev distance 1. *)
Lemma countLiveNeighbors_spec w c :
  countLiveNeighbors w (tx c) (ty c) = Z.of_nat (live_neighbors_spec (liveCells w) c).
Proof.
  rewrite countLiveNeighbors_length, live_neighbors_spec_length. reflexivity.
Qed.

(** * The generation step *)

Lemma birth_loop_elem w cell l (acc : gset tile) c :
  c ∈ fold_left (fun acc '(i, j) =>
      let neighborX := tx cell + i in
      let neighborY := ty cell + j in
      if countLiveNeighbors w neighborX neighborY =? 3
      then {[Tile neighborX neighborY]} ∪ acc else acc) l acc
  <-> c ∈ acc \/ (exists o, o ∈ l /\ c = shift cell o
                  /\ countLiveNeighbors w (tx c) (ty c) = 3).
Proof.
  revert acc. induction l as [|[i j] l IH]; intros acc; simpl.
  - split; [tauto|]. intros [H|(o & Ho & _)]; [done|]. by apply elem_of_nil in Ho.
  - rewrite IH. destruct (Z.eqb_spec (countLiveNeighbors w (tx cell + i) (ty cell + j)) 3)
      as [E|E].
    + rewrite elem_of_union, elem_of_singleton. split.
      * intros [[->|H]|(o & Ho & Hc & Hn)].
        -- right. exists (i, j). rewrite elem_of_cons. auto.
        -- by left.
        -- right. exists o. rewrite elem_of_cons. auto.
      * intros [H|(o & Ho & Hc & Hn)]; [auto|].
        rewrite elem_of_cons in Ho. destruct Ho as [->|Ho]; [|eauto 6].
        left; left. exact Hc.
    + split.
      * intros [H|(o & Ho & Hc & Hn)]; [by left|].
        right. exists o. rewrite elem_of_cons. auto.
      * intros [H|(o & Ho & Hc & Hn)]; [auto|].
        rewrite elem_of_cons in Ho. destruct Ho as [->|Ho]; [|eauto 6].
        exfalso. subst c. unfold shift in Hn; simpl in Hn. done.
Qed.

Lemma simulate_cell_elem w acc d c :
  c ∈ simulate_cell w acc d <-> c ∈ acc \/ cell_contrib w d c.
Proof.
  unfold simulate_cell. rewrite birth_loop_elem. unfold cell_contrib.
  destruct (Z.eqb_spec (countLiveNeighbors w (tx d) (ty d)) 2) as [E2|E2];
  destruct (Z.eqb_spec (countLiveNeighbors w (tx d) (ty d)) 3) as [E3|E3];
  simpl; rewrite ?elem_of_union, ?elem_of_singleton; naive_solver.
Qed.

(** Membership in the next generation, for any iteration order. *)
Lemma nextGeneration_in_elem w order c :
  c ∈ nextGeneration_in w order <-> exists d, d ∈ order /\ cell_contrib w d c.
Proof.
  unfold nextGeneration_in.
  assert (forall acc, c ∈ fold_left (simulate_cell w) order acc
            <-> c ∈ acc \/ exists d, d ∈ order /\ cell_contrib w d c) as Hgen.
  { induction order as [|d order IH]; intros acc; simpl.
    - split; [tauto|]. intros [H|(d & Hd & _)]; [done|]. by apply elem_of_nil in Hd.
    - rewrite IH, simulate_cell_elem.
      setoid_rewrite elem_of_cons. naive_solver. }
  rewrite Hgen. split; [|by right]. intros [H|H]; [by apply elem_of_empty in H|done].
Qed.

Lemma adjacent_sym c d : adjacent c d -> adjacent d c.
Proof.
  unfold adjacent. intros (Hne & Hx & Hy). split; [congruence|]. lia.
Qed.

Lemma adjacent_shift d o : o ∈ neighbor_offsets -> adjacent d (shift d o).
Proof.
  intros Ho. apply adjacent_offset. destruct d as [dx dy], o as [i j].
  unfold shift; simpl.
  replace (dx + i - dx) with i by lia. replace (dy + j - dy) with j by lia.
  exact Ho.
Qed.

(** ** C1: [SimulateWorld] installs exactly the Game-of-Life successor *)

(** C1: after [SimulateWorld], a cell is live iff it was live with exactly 2
    or 3 live neighbours (Chebyshev distance 1), or it was dead, adjacent to
    a live cell, and had exactly 3 live neighbours. *)
Theorem SimulateWorld_gol_rule w c :
  c ∈ liveCells (SimulateWorld w) <-> gol_next_spec (liveCells w) c.
Proof.
  unfold SimulateWorld, SimulateWorld_in. cbn [liveCells set_liveCells].
  rewrite nextGeneration_in_elem. unfold cell_contrib, gol_next_spec.
  setoid_rewrite elem_of_elements. setoid_rewrite countLiveNeighbors_spec.
  split.
  - intros (d & Hd & [[-> Hn] | (o & Ho & -> & Hn)]).
    + left. split; [done | lia].
    + destruct (decide (shift d o ∈ liveCells w)) as [Hin|Hout].
      * left. split; [done | lia].
      * right. split; [done|]. split; [|lia].
        exists d. split; [done|]. by apply adjacent_sym, adjacent_shift.
  - intros [[Hc Hn] | (Hc & (d & Hd & Hadj) & Hn)].
    + exists c. split; [done|]. left. split; [done | lia].
    + exists d. split; [done|]. right.
      exists (tx c - tx d, ty c - ty d). rewrite shift_offset.
      split; [|split; [done | lia]].
      by apply adjacent_offset, adjacent_sym.
Qed.

(** ** C8: the next generation does not depend on the iteration order *)

(** C8: [SimulateWorld] is deterministic: whatever order Go's [range] visits
    the live cells in, the next generation is the same. *)
Theorem SimulateWorld_deterministic w order1 order2
    (H1 : list_to_set order1 = liveCells w)
    (H2 : list_to_set order2 = liveCells w) :
  SimulateWorld_in w order1 = SimulateWorld_in w order2.
Proof.
  unfold SimulateWorld_in. f_equal. apply set_eq. intros c.
  rewrite !nextGeneration_in_elem.
  assert (forall d, d ∈ order1 <-> d ∈ order2) as Hd.
  { intros d. rewrite <- (elem_of_list_to_set (C := gset tile) d order1),
      <- (elem_of_list_to_set (C := gset tile) d order2), H1, H2. done. }
  setoid_rewrite Hd. done.
Qed.

Lemma SimulateWorld_deterministic_witness :
  list_to_set [Tile 0 0; Tile 0 1; Tile 0 2] = liveCells edge_blinker /\
  list_to_set [Tile 0 2; Tile 0 1; Tile 0 0] = liveCells edge_blinker /\
  SimulateWorld_in edge_blinker [Tile 0 0; Tile 0 1; Tile 0 2]
  = SimulateWorld_in edge_blinker [Tile 0 2; Tile 0 1; Tile 0 0].
Proof.
  assert (E1 : list_to_set [Tile 0 0; Tile 0 1; Tile 0 2] = liveCells edge_blinker)
    by (vm_compute; reflexivity).
  assert (E2 : list_to_set [Tile 0 2; Tile 0 1; Tile 0 0] = liveCells edge_blinker)
    by (vm_compute; reflexivity).
  split; [exact E1|]. split; [exact E2|].
  exact (SimulateWorld_deterministic edge_blinker _ _ E1 E2).
Defined.

(** ** C9: the next generation is not clipped to the grid *)

(** C9: a blinker lying inside the grid, on its left edge, steps to a
    generation containing the cell (-1, 1) outside the grid, and that cell
    is counted as a neighbour by [countLiveNeighbors]: removing it lowers
    the count at (0, 0) from 3 to 2. *)
Theorem SimulateWorld_not_clipped :
  (forall c, c ∈ liveCells edge_blinker -> in_grid edge_blinker c) /\
  Tile (-1) 1 ∈ liveCells (SimulateWorld edge_blinker) /\
  ~ in_grid (SimulateWorld edge_blinker) (Tile (-1) 1) /\
  countLiveNeighbors (SimulateWorld edge_blinker) 0 0 = 3 /\
  countLiveNeighbors
    (set_liveCells (SimulateWorld edge_blinker)
       (liveCells (SimulateWorld edge_blinker) ∖ {[Tile (-1) 1]})) 0 0 = 2.
Proof.
  split.
  { intros c Hc. unfold edge_blinker in Hc. cbn [liveCells set_liveCells] in Hc.
    rewrite elem_of_list_to_set, !elem_of_cons, elem_of_nil in Hc.
    unfold in_grid.
    assert (gridWidth edge_blinker = 40) as -> by reflexivity.
    assert (gridHeight edge_blinker = 40) as -> by reflexivity.
    destruct Hc as [->|[->|[->|[]]]]; simpl; lia. }
  split; [apply (bool_decide_unpack _); vm_compute; exact I|].
  split; [unfold in_grid; simpl; lia|].
  split; vm_compute; reflexivity.
Qed.

(** * Editing, reset, loading and randomizing *)

Lemma set_liveCells_same w : set_liveCells w (liveCells w) = w.
Proof. by destruct w. Qed.

Lemma set_liveCells_twice w s1 s2 :
  set_liveCells (set_liveCells w s1) s2 = set_liveCells w s2.
Proof. by destruct w. Qed.

Lemma toggleCell_in_range w cellX cellY
    (Hx : 0 <= cellX < gridWidth w) (Hy : 0 <= cellY < gridHeight w) :
  toggleCell w cellX cellY
  = if bool_decide (Tile cellX cellY ∈ liveCells w)
    then set_liveCells w (liveCells w ∖ {[Tile cellX cellY]})
    else set_liveCells w ({[Tile cellX cellY]} ∪ liveCells w).
Proof.
  unfold toggleCell.
  destruct (Z.ltb_spec cellX 0); [lia|]. destruct (Z.geb_spec cellX (gridWidth w)); [lia|].
  destruct (Z.ltb_spec cellY 0); [lia|]. destruct (Z.geb_spec cellY (gridHeight w)); [lia|].
  reflexivity.
Qed.

(** An in-range toggle flips the membership of the toggled cell. *)
Lemma toggleCell_flips w cellX cellY
    (Hx : 0 <= cellX < gridWidth w) (Hy : 0 <= cellY < gridHeight w) :
  Tile cellX cellY ∈ liveCells (toggleCell w cellX cellY)
  <-> Tile cellX cellY ∉ liveCells w.
Proof.
  rewrite toggleCell_in_range by done.
  case_bool_decide; cbn [liveCells set_liveCells]; set_solver.
Qed.

(** ** C3: out-of-range toggles are ignored *)

(** C3: [toggleCell] at a coordinate outside [[0, gridWidth) x [0, gridHeight)]
    returns the world unchanged (it is a total function: no error path). *)
Theorem toggleCell_out_of_range w cellX cellY
    (Hout : cellX < 0 \/ cellX >= gridWidth w \/ cellY < 0 \/ cellY >= gridHeight w) :
  toggleCell w cellX cellY = w.
Proof.
  unfold toggleCell.
  destruct (Z.ltb_spec cellX 0); [reflexivity|]. destruct (Z.geb_spec cellX (gridWidth w)); [reflexivity|].
  destruct (Z.ltb_spec cellY 0); [reflexivity|]. destruct (Z.geb_spec cellY (gridHeight w)); [reflexivity|].
  lia.
Qed.

Lemma toggleCell_out_of_range_witness :
  (-1 < 0 \/ -1 >= gridWidth initialWorld \/ 0 < 0 \/ 0 >= gridHeight initialWorld) /\
  toggleCell initialWorld (-1) 0 = initialWorld.
Proof.
  assert (H : -1 < 0 \/ -1 >= gridWidth initialWorld \/ 0 < 0 \/ 0 >= gridHeight initialWorld)
    by (left; lia).
  split; [exact H|]. exact (toggleCell_out_of_range initialWorld (-1) 0 H).
Defined.

(** ** C4: toggling is an involution *)

(** C4: toggling the same in-range cell twice gives back the original world. *)
Theorem toggleCell_involutive w cellX cellY
    (Hx : 0 <= cellX < gridWidth w) (Hy : 0 <= cellY < gridHeight w) :
  toggleCell (toggleCell w cellX cellY) cellX cellY = w.
Proof.
  rewrite (toggleCell_in_range w) by done.
  case_bool_decide as Hin.
  - rewrite toggleCell_in_range by (cbn [gridWidth gridHeight set_liveCells]; lia).
    cbn [liveCells set_liveCells].
    rewrite bool_decide_false by set_solver.
    rewrite set_liveCells_twice.
    replace ({[Tile cellX cellY]} ∪ liveCells w ∖ {[Tile cellX cellY]}) with (liveCells w).
    + apply set_liveCells_same.
    + apply set_eq. intros c. destruct (decide (c = Tile cellX cellY)); set_solver.
  - rewrite toggleCell_in_range by (cbn [gridWidth gridHeight set_liveCells]; lia).
    cbn [liveCells set_liveCells].
    rewrite bool_decide_true by set_solver.
    rewrite set_liveCells_twice.
    replace (({[Tile cellX cellY]} ∪ liveCells w) ∖ {[Tile cellX cellY]}) with (liveCells w).
    + apply set_liveCells_same.
    + apply set_eq. intros c. set_solver.
Qed.

Lemma toggleCell_involutive_witness :
  0 <= 3 < gridWidth edge_blinker /\ 0 <= 1 < gridHeight edge_blinker /\
  toggleCell (toggleCell edge_blinker 3 1) 3 1 = edge_blinker.
Proof.
  assert (Hx : 0 <= 3 < gridWidth edge_blinker) by (split; vm_compute; congruence).
  assert (Hy : 0 <= 1 < gridHeight edge_blinker) by (split; vm_compute; congruence).
  split; [exact Hx|]. split; [exact Hy|].
  exact (toggleCell_involutive edge_blinker 3 1 Hx Hy).
Defined.

(** ** C5: reset *)

(** C5: from any world, the reset branch leaves no live cell and the
    simulation paused. *)
Theorem resetWorld_empty_paused w :
  liveCells (resetWorld w) = ∅ /\ isSimulating (resetWorld w) = false.
Proof. split; reflexivity. Qed.

(** ** C6: loading the glider gun *)

Lemma fold_insert_elem (l : list tile) (acc : gset tile) :
  fold_left (fun s cell => {[cell]} ∪ s) l acc = list_to_set l ∪ acc.
Proof.
  revert acc. induction l as [|c l IH]; intros acc; simpl.
  - apply set_eq. set_solver.
  - rewrite IH. apply set_eq. set_solver.
Qed.

(** C6 as stated fails: loading the pattern while the simulation runs
    leaves it running. *)
Lemma generateGosperGliderGun_not_paused :
  ~ (forall w, liveCells (generateGosperGliderGun w) = list_to_set gliderGun
               /\ isSimulating (generateGosperGliderGun w) = false).
Proof.
  intros H. destruct (H running_world) as [_ Hrun]. discriminate Hrun.
Qed.

(** C6 (amended): from any world, [generateGosperGliderGun] replaces the live
    cells by exactly the 36 cells of the literal list, and leaves
    [isSimulating] as it was (paused if it was paused). *)
Theorem generateGosperGliderGun_spec w :
  (forall c, c ∈ liveCells (generateGosperGliderGun w) <-> c ∈ gliderGun) /\
  size (liveCells (generateGosperGliderGun w)) = 36%nat /\
  isSimulating (generateGosperGliderGun w) = isSimulating w.
Proof.
  unfold generateGosperGliderGun. cbn [liveCells isSimulating set_liveCells].
  rewrite fold_insert_elem, (right_id_L ∅ union).
  split; [intros c; apply elem_of_list_to_set|].
  split; [vm_compute; reflexivity | reflexivity].
Qed.

(** ** C7: only the step sets the simulation running *)

Lemma insertRandomCells_isSimulating draw k w i :
  match insertRandomCells draw k w i with
  | Some (w', _) => isSimulating w' = isSimulating w
  | None => True
  end.
Proof.
  revert w i. induction k as [|k IH]; intros w i; simpl; [reflexivity|].
  unfold rbind, Intn.
  destruct (gridWidth w <=? 0); [exact I|].
  destruct (gridHeight w <=? 0); [exact I|].
  specialize (IH (set_liveCells w ({[Tile (draw i mod gridWidth w) (draw (S i) mod gridHeight w)]}
                                    ∪ liveCells w)) (S (S i))).
  destruct (insertRandomCells _ _ _ _) as [[w' i']|]; [exact IH | exact I].
Qed.

(** C7: [SimulateWorld] sets the simulation running, while
    [generateRandomCells] and [generateGosperGliderGun] (and the click
    handler) leave [isSimulating] unchanged, and reset and pause clear it. *)
Theorem only_step_sets_running draw w i pressed x y :
  isSimulating (SimulateWorld w) = true /\
  match generateRandomCells draw w i with
  | Some (w', _) => isSimulating w' = isSimulating w
  | None => True
  end /\
  isSimulating (generateGosperGliderGun w) = isSimulating w /\
  isSimulating (handleMouseClick pressed w x y) = isSimulating w /\
  isSimulating (resetWorld w) = false /\
  isSimulating (pauseWorld w) = false.
Proof.
  split; [reflexivity|]. split.
  { unfold generateRandomCells, rbind, Intn.
    destruct (_ <=? 0); [exact I|].
    apply (insertRandomCells_isSimulating draw _ (set_liveCells w ∅)). }
  split; [reflexivity|]. split; [|split; reflexivity].
  unfold handleMouseClick, toggleCell.
  destruct pressed; [|reflexivity]. simpl.
  destruct (_ || _); [reflexivity|].
  case_bool_decide; reflexivity.
Qed.

(** ** C10: truncating division lets margin clicks through *)

Lemma quot_20_range a : 0 <= a < 40 * 20 -> 0 <= Z.quot a 20 < 40.
Proof.
  intros Ha. rewrite Z.quot_div_nonneg by lia.
  split; [apply Z.div_pos; lia | apply Z.div_lt_upper_bound; lia].
Qed.

Lemma quot_20_small_neg a : -19 <= a <= -1 -> Z.quot a 20 = 0.
Proof.
  intros Ha. replace a with (- (- a)) by lia.
  rewrite Z.quot_opp_l by lia. rewrite Z.quot_small by lia. reflexivity.
Qed.

(** C10: with the constants of main.go, a click in the top margin
    ([1 <= y <= gridTop - 1]) over the grid's columns toggles a cell of row 0,
    and a click just left of the grid ([-(tileSize - 1) <= x <= -1]) beside
    the grid's rows toggles a cell of column 0: both pass the range check. *)
Theorem handleMouseClick_margin_not_ignored w x y
    (Hts : tileSize w = Const.tileSize) (Htop : gridTop w = Const.gridTop)
    (Hgw : gridWidth w = Const.gridWidth) (Hgh : gridHeight w = Const.gridHeight) :
  (1 <= y <= gridTop w - 1 -> 0 <= x < gridWidth w * tileSize w ->
     Tile (Z.quot x (tileSize w)) 0 ∈ liveCells (handleMouseClick true w x y)
     <-> Tile (Z.quot x (tileSize w)) 0 ∉ liveCells w) /\
  (-(tileSize w - 1) <= x <= -1 ->
   gridTop w <= y < gridTop w + gridHeight w * tileSize w ->
     Tile 0 (Z.quot (y - gridTop w) (tileSize w)) ∈ liveCells (handleMouseClick true w x y)
     <-> Tile 0 (Z.quot (y - gridTop w) (tileSize w)) ∉ liveCells w).
Proof.
  unfold handleMouseClick. simpl negb. cbv zeta.
  rewrite Hts, Htop. rewrite Hgw, Hgh.
  unfold Const.tileSize, Const.gridTop, Const.gridWidth, Const.gridHeight,
    Const.screenWidth, Const.screenHeight, Const.tileSize.
  change (Z.quot 800 20) with 40.
  split.
  - intros Hy Hx. rewrite (quot_20_small_neg (y - 20)) by lia.
    apply toggleCell_flips; rewrite ?Hgw, ?Hgh; change Const.gridWidth with 40;
      change Const.gridHeight with 40; [apply quot_20_range; lia | lia].
  - intros Hx Hy. rewrite (quot_20_small_neg x) by lia.
    apply toggleCell_flips; rewrite ?Hgw, ?Hgh; change Const.gridWidth with 40;
      change Const.gridHeight with 40; [lia | apply quot_20_range; lia].
Qed.

Lemma handleMouseClick_margin_not_ignored_witness :
  tileSize initialWorld = Const.tileSize /\ gridTop initialWorld = Const.gridTop /\
  gridWidth initialWorld = Const.gridWidth /\ gridHeight initialWorld = Const.gridHeight /\
  (Tile 0 0 ∈ liveCells (handleMouseClick true initialWorld 5 7)
   <-> Tile 0 0 ∉ liveCells initialWorld).
Proof.
  assert (H1 : tileSize initialWorld = Const.tileSize) by reflexivity.
  assert (H2 : gridTop initialWorld = Const.gridTop) by reflexivity.
  assert (H3 : gridWidth initialWorld = Const.gridWidth) by reflexivity.
  assert (H4 : gridHeight initialWorld = Const.gridHeight) by reflexivity.
  split; [exact H1|]. split; [exact H2|]. split; [exact H3|]. split; [exact H4|].
  destruct (handleMouseClick_margin_not_ignored initialWorld 5 7 H1 H2 H3 H4) as [Ha _].
  apply Ha; [split; vm_compute; congruence | split; vm_compute; congruence].
Defined.

(** ** C2: the number of random insertion attempts *)

(** C2: [rand.Intn((totalCells / 5) + totalCells/5)] draws the number of
    attempts from [[0, 2*totalCells/5)], not from
    [[totalCells/5, 2*totalCells/5)]: on main's 40x40 grid
    ([totalCells/5 = 320]) a first draw of 0 makes [generateRandomCells]
    consume that one draw only, make no insertion attempt, and leave the
    live-cell set empty. *)
Theorem generateRandomCells_zero_attempts :
  Z.quot (gridWidth initialWorld * gridHeight initialWorld) 5 = 320 /\
  generateRandomCells (fun _ => 0) initialWorld 0%nat = Some (initialWorld, 1%nat) /\
  liveCells initialWorld = ∅.
Proof. split; [reflexivity|]. split; vm_compute; reflexivity. Qed.

(** * Further properties of the generation step *)

Lemma SimulateWorld_elem w c :
  c ∈ liveCells (SimulateWorld w) <-> gol_next_spec (liveCells w) c.
Proof.
  unfold SimulateWorld, SimulateWorld_in. cbn [liveCells set_liveCells].
  rewrite nextGeneration_in_elem. unfold cell_contrib, gol_next_spec.
  setoid_rewrite elem_of_elements. setoid_rewrite countLiveNeighbors_spec.
  split.
  - intros (d & Hd & [[-> Hn] | (o & Ho & -> & Hn)]).
    + left. split; [done | lia].
    + destruct (decide (shift d o ∈ liveCells w)) as [Hin|Hout].
      * left. split; [done | lia].
      * right. split; [done|]. split; [|lia].
        exists d. split; [done|]. by apply adjacent_sym, adjacent_shift.
  - intros [[Hc Hn] | (Hc & (d & Hd & Hadj) & Hn)].
    + exists c. split; [done|]. left. split; [done | lia].
    + exists d. split; [done|]. right.
      exists (tx c - tx d, ty c - ty d). rewrite shift_offset.
      split; [|split; [done | lia]].
      by apply adjacent_offset, adjacent_sym.
Qed.

Lemma SimulateWorld_near_live w c :
  c ∈ liveCells (SimulateWorld w) ->
  exists d, d ∈ liveCells w /\ Z.abs (tx c - tx d) <= 1 /\ Z.abs (ty c - ty d) <= 1.
Proof.
  unfold SimulateWorld, SimulateWorld_in. cbn [liveCells set_liveCells].
  rewrite nextGeneration_in_elem. intros (d & Hd & Hc).
  apply elem_of_elements in Hd. exists d. split; [done|].
  destruct Hc as [[-> _] | ([i j] & Ho & -> & _)]; [lia|].
  apply elem_of_neighbor_offsets in Ho. unfold shift; simpl. lia.
Qed.

Lemma SimulateWorld_fields w :
  gridWidth (SimulateWorld w) = gridWidth w /\ gridHeight (SimulateWorld w) = gridHeight w /\
  tileSize (SimulateWorld w) = tileSize w /\ gridTop (SimulateWorld w) = gridTop w /\
  lastUpdate (SimulateWorld w) = lastUpdate w.
Proof. repeat split. Qed.

(** Every cell of the next generation is within Chebyshev distance 1 of a
    currently live cell: [SimulateWorld] never creates a cell out of
    nothing, and an empty world stays empty. *)
Theorem SimulateWorld_local w c (Hc : c ∈ liveCells (SimulateWorld w)) :
  exists d, d ∈ liveCells w /\ Z.abs (tx c - tx d) <= 1 /\ Z.abs (ty c - ty d) <= 1.
Proof. exact (SimulateWorld_near_live w c Hc). Qed.

Lemma SimulateWorld_local_witness :
  Tile (-1) 1 ∈ liveCells (SimulateWorld edge_blinker) /\
  exists d, d ∈ liveCells edge_blinker /\ Z.abs (tx (Tile (-1) 1) - tx d) <= 1
            /\ Z.abs (ty (Tile (-1) 1) - ty d) <= 1.
Proof.
  assert (H : Tile (-1) 1 ∈ liveCells (SimulateWorld edge_blinker))
    by (apply (bool_decide_unpack _); vm_compute; exact I).
  split; [exact H|]. exact (SimulateWorld_local edge_blinker _ H).
Defined.

(** After [k] generations, the live cells stay inside the bounding box of
    the initial live cells grown by [k] on every side: coordinates move by at
    most one unit per generation. *)
Theorem SimulateWorld_iter_box k w a b c d
    (Hbox : in_box (liveCells w) a b c d) :
  in_box (liveCells (Nat.iter k SimulateWorld w))
    (a - Z.of_nat k) (b + Z.of_nat k) (c - Z.of_nat k) (d + Z.of_nat k).
Proof.
  unfold in_box, set_Forall in *.
  induction k as [|k IH]; simpl.
  - intros t Ht. specialize (Hbox t Ht). lia.
  - intros t Ht. apply SimulateWorld_near_live in Ht as (t' & Ht' & Hx & Hy).
    specialize (IH t' Ht'). rewrite Nat2Z.inj_succ. lia.
Qed.

Lemma SimulateWorld_iter_box_witness :
  in_box (liveCells edge_blinker) 0 0 0 2 /\
  in_box (liveCells (Nat.iter 5 SimulateWorld edge_blinker)) (0 - 5) (0 + 5) (0 - 5) (2 + 5).
Proof.
  assert (H : in_box (liveCells edge_blinker) 0 0 0 2)
    by (apply (bool_decide_unpack _); vm_compute; exact I).
  split; [exact H|]. exact (SimulateWorld_iter_box 5 edge_blinker 0 0 0 2 H).
Defined.

Lemma shift_shift_neg t v : shift (shift t v) (- v.1, - v.2) = t.
Proof. destruct t, v; unfold shift; simpl; f_equal; lia. Qed.

Lemma shift_neg_shift t v : shift (shift t (- v.1, - v.2)) v = t.
Proof. destruct t, v; unfold shift; simpl; f_equal; lia. Qed.

Lemma translate_elem v s t : t ∈ translate v s <-> shift t (- v.1, - v.2) ∈ s.
Proof.
  unfold translate. rewrite elem_of_map. split.
  - intros (y & -> & Hy). by rewrite shift_shift_neg.
  - intros H. exists (shift t (- v.1, - v.2)). by rewrite shift_neg_shift.
Qed.

Lemma translate_shift_elem v s t : shift t v ∈ translate v s <-> t ∈ s.
Proof. by rewrite translate_elem, shift_shift_neg. Qed.

Lemma adjacent_shift_both c d v : adjacent (shift c v) (shift d v) <-> adjacent c d.
Proof.
  destruct c as [cx cy], d as [dx dy], v as [a b]. unfold adjacent, shift; simpl.
  replace (cx + a - (dx + a)) with (cx - dx) by lia.
  replace (cy + b - (dy + b)) with (cy - dy) by lia.
  split; intros (Hne & Hx & Hy); (split; [|done]); intros Heq; apply Hne;
    injection Heq as E1 E2; f_equal; lia.
Qed.

Lemma live_neighbors_spec_translate v s c :
  live_neighbors_spec (translate v s) (shift c v) = live_neighbors_spec s c.
Proof.
  rewrite !live_neighbors_spec_length. f_equal. apply list_filter_iff.
  intros o. rewrite translate_elem.
  replace (shift (shift (shift c v) o) (- v.1, - v.2)) with (shift c o); [done|].
  destruct c, v, o; unfold shift; simpl; f_equal; lia.
Qed.

Lemma gol_next_spec_translate v s c :
  gol_next_spec (translate v s) (shift c v) <-> gol_next_spec s c.
Proof.
  unfold gol_next_spec. rewrite live_neighbors_spec_translate, translate_shift_elem.
  assert ((exists d, d ∈ translate v s /\ adjacent (shift c v) d)
          <-> (exists d, d ∈ s /\ adjacent c d)) as ->; [|done].
  split.
  - intros (d & Hd & Hadj). exists (shift d (- v.1, - v.2)).
    rewrite <- translate_elem. split; [done|].
    apply (adjacent_shift_both _ _ v). by rewrite shift_neg_shift.
  - intros (d & Hd & Hadj). exists (shift d v).
    rewrite translate_shift_elem, adjacent_shift_both. done.
Qed.

(** [SimulateWorld] commutes with translations: with no clipping and no
    wrapping, stepping a translated pattern gives the translated next
    generation, wherever the pattern sits. *)
Theorem SimulateWorld_translate w v :
  liveCells (SimulateWorld (set_liveCells w (translate v (liveCells w))))
  = translate v (liveCells (SimulateWorld w)).
Proof.
  apply set_eq. intros t.
  rewrite SimulateWorld_elem, translate_elem, SimulateWorld_elem.
  cbn [liveCells set_liveCells].
  rewrite <- (shift_neg_shift t v) at 1.
  apply gol_next_spec_translate.
Qed.

(** * Further properties of editing and randomizing *)

Lemma toggleCell_other w cellX cellY c (Hne : c <> Tile cellX cellY) :
  c ∈ liveCells (toggleCell w cellX cellY) <-> c ∈ liveCells w.
Proof.
  unfold toggleCell. destruct (_ || _); [done|].
  case_bool_decide; cbn [liveCells set_liveCells]; set_solver.
Qed.

Lemma toggleCell_grid w cellX cellY :
  gridWidth (toggleCell w cellX cellY) = gridWidth w /\
  gridHeight (toggleCell w cellX cellY) = gridHeight w.
Proof.
  unfold toggleCell. destruct (_ || _); [done|]. case_bool_decide; done.
Qed.

(** A click changes at most one cell: the cell under the cursor, at
    [(x / tileSize, (y - gridTop) / tileSize)]; every other cell keeps its
    state. *)
Theorem handleMouseClick_other pressed w x y c
    (Hne : c <> Tile (Z.quot x (tileSize w)) (Z.quot (y - gridTop w) (tileSize w))) :
  c ∈ liveCells (handleMouseClick pressed w x y) <-> c ∈ liveCells w.
Proof.
  unfold handleMouseClick. destruct pressed; simpl; [|done].
  by apply toggleCell_other.
Qed.

Lemma handleMouseClick_other_witness :
  Tile 0 1 <> Tile (Z.quot 5 (tileSize edge_blinker))
                   (Z.quot (7 - gridTop edge_blinker) (tileSize edge_blinker)) /\
  (Tile 0 1 ∈ liveCells (handleMouseClick true edge_blinker 5 7)
   <-> Tile 0 1 ∈ liveCells edge_blinker).
Proof.
  assert (H : Tile 0 1 <> Tile (Z.quot 5 (tileSize edge_blinker))
                   (Z.quot (7 - gridTop edge_blinker) (tileSize edge_blinker)))
    by (vm_compute; congruence).
  split; [exact H|]. exact (handleMouseClick_other true edge_blinker 5 7 _ H).
Defined.

(** Clicks never put a cell outside the grid: if every live cell is inside
    the grid, it still is after [handleMouseClick], whatever the cursor
    position. *)
Theorem handleMouseClick_keeps_in_grid pressed w x y (Hw : all_in_grid w) :
  all_in_grid (handleMouseClick pressed w x y).
Proof.
  unfold handleMouseClick. destruct pressed; simpl; [|exact Hw].
  unfold all_in_grid, set_Forall in *. unfold in_grid in *.
  destruct (toggleCell_grid w (Z.quot x (tileSize w)) (Z.quot (y - gridTop w) (tileSize w)))
    as [-> ->].
  intros c Hc.
  destruct (decide (c = Tile (Z.quot x (tileSize w)) (Z.quot (y - gridTop w) (tileSize w))))
    as [->|Hne].
  - unfold toggleCell in *. simpl.
    destruct (Z.ltb_spec (Z.quot x (tileSize w)) 0); simpl in *; [exact (Hw _ Hc)|].
    destruct (Z.geb_spec (Z.quot x (tileSize w)) (gridWidth w)); simpl in *; [exact (Hw _ Hc)|].
    destruct (Z.ltb_spec (Z.quot (y - gridTop w) (tileSize w)) 0); simpl in *; [exact (Hw _ Hc)|].
    destruct (Z.geb_spec (Z.quot (y - gridTop w) (tileSize w)) (gridHeight w));
      simpl in *; [exact (Hw _ Hc)|].
    lia.
  - apply Hw. by apply (toggleCell_other w _ _ c Hne).
Qed.

Lemma handleMouseClick_keeps_in_grid_witness :
  all_in_grid edge_blinker /\ all_in_grid (handleMouseClick true edge_blinker 5 7).
Proof.
  assert (H : all_in_grid edge_blinker)
    by (apply (bool_decide_unpack _); vm_compute; exact I).
  split; [exact H|]. exact (handleMouseClick_keeps_in_grid true edge_blinker 5 7 H).
Defined.

(** With main's geometry, no click inside the 800-pixel-high logical screen
    of [Layout] reaches the last grid row [gridHeight - 1 = 39]: the cells of
    that row keep their state. *)
Theorem handleMouseClick_last_row_unreachable pressed w x y cx
    (Hts : tileSize w = Const.tileSize) (Htop : gridTop w = Const.gridTop)
    (Hy : 0 <= y < snd (Layout 0 0)) :
  Tile cx 39 ∈ liveCells (handleMouseClick pressed w x y) <-> Tile cx 39 ∈ liveCells w.
Proof.
  apply handleMouseClick_other. rewrite Hts, Htop. simpl in Hy.
  unfold Const.tileSize, Const.gridTop. intros Heq. injection Heq as _ E.
  pose proof (Z.quot_rem' (y - 20) 20) as Hqr.
  pose proof (Z.rem_bound_abs (y - 20) 20) as Hr.
  rewrite <- E in Hqr.
  assert (0 <= Z.rem (y - 20) 20) by (apply Z.rem_nonneg; lia).
  lia.
Qed.

Lemma handleMouseClick_last_row_unreachable_witness :
  tileSize initialWorld = Const.tileSize /\ gridTop initialWorld = Const.gridTop /\
  0 <= 799 < snd (Layout 0 0) /\
  (Tile 3 39 ∈ liveCells (handleMouseClick true initialWorld 70 799)
   <-> Tile 3 39 ∈ liveCells initialWorld).
Proof.
  assert (H1 : tileSize initialWorld = Const.tileSize) by reflexivity.
  assert (H2 : gridTop initialWorld = Const.gridTop) by reflexivity.
  assert (H3 : 0 <= 799 < snd (Layout 0 0)) by (simpl; lia).
  split; [exact H1|]. split; [exact H2|]. split; [exact H3|].
  exact (handleMouseClick_last_row_unreachable true initialWorld 70 799 3 H1 H2 H3).
Defined.

Lemma size_insert_le (t : tile) (s : gset tile) : (size ({[t]} ∪ s) <= S (size s))%nat.
Proof.
  rewrite size_union_alt, size_singleton.
  pose proof (subseteq_size (s ∖ {[t]}) s ltac:(set_solver)). lia.
Qed.

Lemma insertRandomCells_spec draw k w i
    (Hw : 0 < gridWidth w) (Hh : 0 < gridHeight w) :
  exists w' i', insertRandomCells draw k w i = Some (w', i') /\
    gridWidth w' = gridWidth w /\ gridHeight w' = gridHeight w /\
    (forall c, c ∈ liveCells w' -> c ∈ liveCells w \/ in_grid w c) /\
    (size (liveCells w') <= size (liveCells w) + k)%nat.
Proof.
  revert w i Hw Hh. induction k as [|k IH]; intros w i Hw Hh; simpl.
  - exists w, i. repeat split; [by left | lia].
  - unfold rbind, Intn.
    destruct (Z.leb_spec (gridWidth w) 0); [lia|].
    destruct (Z.leb_spec (gridHeight w) 0); [lia|].
    set (t := Tile (draw i mod gridWidth w) (draw (S i) mod gridHeight w)).
    destruct (IH (set_liveCells w ({[t]} ∪ liveCells w)) (S (S i)) Hw Hh)
      as (w' & i' & Hrun & Hgw & Hgh & Hin & Hsz).
    exists w', i'. cbn [gridWidth gridHeight liveCells set_liveCells] in *.
    rewrite Hrun. split; [done|]. split; [done|]. split; [done|]. split.
    + intros c Hc. destruct (Hin c Hc) as [Hc'|Hc'].
      * apply elem_of_union in Hc' as [Hc'|Hc']; [|by left].
        apply elem_of_singleton in Hc' as ->. right. unfold in_grid, t; simpl.
        pose proof (Z.mod_pos_bound (draw i) (gridWidth w) Hw).
        pose proof (Z.mod_pos_bound (draw (S i)) (gridHeight w) Hh). lia.
      * right. exact Hc'.
    + pose proof (size_insert_le t (liveCells w)). lia.
Qed.

(** On a grid with positive sides and at least 5 cells, [generateRandomCells]
    never panics, keeps the grid, puts every cell inside it, and leaves fewer
    than [totalCells/5 + totalCells/5] live cells (one per attempt at most,
    fewer when two attempts hit the same cell). *)
Theorem generateRandomCells_in_grid draw w i
    (Hw : 0 < gridWidth w) (Hh : 0 < gridHeight w)
    (Htot : 0 < Z.quot (gridWidth w * gridHeight w) 5) :
  exists w' i', generateRandomCells draw w i = Some (w', i') /\
    gridWidth w' = gridWidth w /\ gridHeight w' = gridHeight w /\
    all_in_grid w' /\
    Z.of_nat (size (liveCells w'))
      < Z.quot (gridWidth w * gridHeight w) 5 + Z.quot (gridWidth w * gridHeight w) 5.
Proof.
  unfold generateRandomCells, rbind, Intn.
  set (n := Z.quot (gridWidth w * gridHeight w) 5 + Z.quot (gridWidth w * gridHeight w) 5).
  destruct (Z.leb_spec n 0); [unfold n in *; lia|].
  destruct (insertRandomCells_spec draw (Z.to_nat (draw i mod n)) (set_liveCells w ∅) (S i) Hw Hh)
    as (w' & i' & Hrun & Hgw & Hgh & Hin & Hsz).
  exists w', i'. rewrite Hrun. cbn [gridWidth gridHeight liveCells set_liveCells] in *.
  split; [done|]. split; [done|]. split; [done|]. split.
  - intros c Hc. unfold in_grid. rewrite Hgw, Hgh.
    destruct (Hin c Hc) as [Hc'|Hc']; [set_solver | exact Hc'].
  - rewrite size_empty in Hsz.
    pose proof (Z.mod_pos_bound (draw i) n ltac:(lia)). lia.
Qed.

Lemma generateRandomCells_in_grid_witness :
  0 < gridWidth initialWorld /\ 0 < gridHeight initialWorld /\
  0 < Z.quot (gridWidth initialWorld * gridHeight initialWorld) 5 /\
  exists w' i', generateRandomCells (fun n => Z.of_nat n * 7919) initialWorld 0%nat
                = Some (w', i') /\
    gridWidth w' = gridWidth initialWorld /\ gridHeight w' = gridHeight initialWorld /\
    all_in_grid w' /\
    Z.of_nat (size (liveCells w'))
      < Z.quot (gridWidth initialWorld * gridHeight initialWorld) 5
        + Z.quot (gridWidth initialWorld * gridHeight initialWorld) 5.
Proof.
  assert (H1 : 0 < gridWidth initialWorld) by (vm_compute; reflexivity).
  assert (H2 : 0 < gridHeight initialWorld) by (vm_compute; reflexivity).
  assert (H3 : 0 < Z.quot (gridWidth initialWorld * gridHeight initialWorld) 5)
    by (vm_compute; reflexivity).
  split; [exact H1|]. split; [exact H2|]. split; [exact H3|].
  exact (generateRandomCells_in_grid _ initialWorld 0%nat H1 H2 H3).
Defined.

(** * Properties of one frame of [Game.Update] *)

Lemma toggleCell_live_only w cellX cellY :
  exists s, toggleCell w cellX cellY = set_liveCells w s.
Proof.
  unfold toggleCell. destruct (_ || _).
  - exists (liveCells w). by rewrite set_liveCells_same.
  - case_bool_decide; eexists; reflexivity.
Qed.

Lemma handleMouseClick_live_only pressed w x y :
  exists s, handleMouseClick pressed w x y = set_liveCells w s.
Proof.
  unfold handleMouseClick. destruct pressed; simpl.
  - apply toggleCell_live_only.
  - exists (liveCells w). by rewrite set_liveCells_same.
Qed.

Lemma handleMouseClick_fields pressed w x y :
  isSimulating (handleMouseClick pressed w x y) = isSimulating w /\
  lastUpdate (handleMouseClick pressed w x y) = lastUpdate w /\
  tileSize (handleMouseClick pressed w x y) = tileSize w /\
  gridTop (handleMouseClick pressed w x y) = gridTop w /\
  gridWidth (handleMouseClick pressed w x y) = gridWidth w /\
  gridHeight (handleMouseClick pressed w x y) = gridHeight w.
Proof. destruct (handleMouseClick_live_only pressed w x y) as [s ->]. repeat split. Qed.

Lemma insertRandomCells_live_only draw k w i :
  match insertRandomCells draw k w i with
  | Some (w', _) => exists s, w' = set_liveCells w s
  | None => True
  end.
Proof.
  revert w i. induction k as [|k IH]; intros w i; simpl.
  - exists (liveCells w). by rewrite set_liveCells_same.
  - unfold rbind, Intn.
    destruct (gridWidth w <=? 0); [exact I|].
    destruct (gridHeight w <=? 0); [exact I|].
    match goal with |- context [insertRandomCells draw k ?w1 ?j] =>
      specialize (IH w1 j) end.
    destruct (insertRandomCells _ _ _ _) as [[w' i']|]; [|exact I].
    destruct IH as [s ->]. exists s. apply set_liveCells_twice.
Qed.

Lemma generateRandomCells_live_only draw w i :
  match generateRandomCells draw w i with
  | Some (w', _) => exists s, w' = set_liveCells w s
  | None => True
  end.
Proof.
  unfold generateRandomCells, rbind, Intn.
  destruct (_ <=? 0); [exact I|].
  match goal with |- context [insertRandomCells draw ?k ?w1 ?j] =>
    pose proof (insertRandomCells_live_only draw k w1 j) as H end.
  destruct (insertRandomCells _ _ _ _) as [[w' i']|]; [|exact I].
  destruct H as [s ->]. exists s. apply set_liveCells_twice.
Qed.

Lemma random_branch_live_only draw (g : bool) w i :
  match (if g then generateRandomCells draw w else rret w) i with
  | Some (w1, _) => exists s, w1 = set_liveCells w s
  | None => True
  end.
Proof.
  destruct g; [apply generateRandomCells_live_only|].
  exists (liveCells w). by rewrite set_liveCells_same.
Qed.

(** Splits a frame into the cases of its branches. *)
Ltac frame_cases :=
  repeat match goal with
  | |- context [if ?b then _ else _] =>
      lazymatch b with
      | context [handleMouseClick] => fail
      | _ => destruct b eqn:?
      end
  end.



(** A frame with no key and no mouse button pressed leaves a paused world
    untouched, and advances a running world by exactly one generation (and
    stamps [lastUpdate] with the current time) when strictly more than
    300 ms have passed since [lastUpdate], and otherwise leaves it
    untouched. *)
Theorem Update_idle draw cx cy now w i :
  Update draw (idleInput cx cy) now w i
  = Some ((Continue,
           if isSimulating w && (now - lastUpdate w >? stepInterval)
           then set_lastUpdate (SimulateWorld w) now else w), i).
Proof. reflexivity. Qed.

(** Opens a frame that is not a quit: the random branch gives
    [set_liveCells w s1], and the click handler keeps every field but the
    live cells. *)
Ltac open_frame draw inp w i :=
  unfold rbind;
  pose proof (random_branch_live_only draw (keyG inp) w i) as HG;
  destruct ((if keyG inp then generateRandomCells draw w else rret w) i)
    as [[w1 i1]|]; [|exact I];
  destruct HG as [s1 ->]; unfold rret; cbv zeta;
  try (destruct (mouseLeft inp);
       [match goal with |- context [handleMouseClick ?p ?w6 ?x ?y] =>
          destruct (handleMouseClick_fields p w6 x y) as (E1 & E2 & _);
          rewrite ?E1, ?E2 end|]).

(** A frame with P held (and no quit key) ends paused, and no automatic
    step runs in it: [lastUpdate] is left as it was. *)
Theorem Update_pause draw inp now w i
    (Hq : keyEscape inp || keyQ inp = false) (Hp : keyP inp = true) :
  match Update draw inp now w i with
  | Some ((o, w'), _) => o = Continue /\ isSimulating w' = false /\ lastUpdate w' = lastUpdate w
  | None => True
  end.
Proof.
  unfold Update; rewrite Hq, Hp. open_frame draw inp w i;
  frame_cases; simpl in *; try discriminate; auto.
Qed.

(** A frame in which R is pressed, with no quit key, no step key (space or
    S), no pattern key and no mouse button, ends with no live cell and the
    simulation paused, whether or not G is held, and leaves [lastUpdate]
    as it was. *)
Theorem Update_reset draw inp now w i
    (Hq : keyEscape inp || keyQ inp = false) (Hr : keyRJust inp = true)
    (Hs : keySpace inp || keySJust inp = false) (H1 : key1Just inp = false)
    (Hm : mouseLeft inp = false) :
  match Update draw inp now w i with
  | Some ((o, w'), _) =>
      o = Continue /\ liveCells w' = ∅ /\ isSimulating w' = false /\ lastUpdate w' = lastUpdate w
  | None => True
  end.
Proof.
  unfold Update; rewrite Hq, Hr, Hs, H1, Hm. open_frame draw inp w i;
  frame_cases; simpl in *; try discriminate; auto.
Qed.

Lemma Update_reset_witness :
  keyEscape resetInputG || keyQ resetInputG = false /\ keyRJust resetInputG = true /\
  keySpace resetInputG || keySJust resetInputG = false /\ key1Just resetInputG = false /\ mouseLeft resetInputG = false /\
  match Update (fun n => Z.of_nat n) resetInputG 0 running_world 0%nat with
  | Some ((o, w'), _) =>
      o = Continue /\ liveCells w' = ∅ /\ isSimulating w' = false
      /\ lastUpdate w' = lastUpdate running_world
  | None => True
  end.
Proof.
  assert (Hq : keyEscape resetInputG || keyQ resetInputG = false) by reflexivity.
  assert (Hr : keyRJust resetInputG = true) by reflexivity.
  assert (Hs : keySpace resetInputG || keySJust resetInputG = false) by reflexivity.
  assert (H1 : key1Just resetInputG = false) by reflexivity.
  assert (Hm : mouseLeft resetInputG = false) by reflexivity.
  split; [exact Hq|]. split; [exact Hr|]. split; [exact Hs|]. split; [exact H1|].
  split; [exact Hm|].
  exact (Update_reset (fun n => Z.of_nat n) resetInputG 0 running_world 0%nat Hq Hr Hs H1 Hm).
Defined.

Lemma Update_pause_witness :
  keyEscape pauseInputMix || keyQ pauseInputMix = false /\ keyP pauseInputMix = true /\
  match Update (fun _ => 0) pauseInputMix 400000000 running_world 0%nat with
  | Some ((o, w'), _) =>
      o = Continue /\ isSimulating w' = false /\ lastUpdate w' = lastUpdate running_world
  | None => True
  end.
Proof.
  assert (Hq : keyEscape pauseInputMix || keyQ pauseInputMix = false) by reflexivity.
  assert (Hp : keyP pauseInputMix = true) by reflexivity.
  split; [exact Hq|]. split; [exact Hp|].
  exact (Update_pause (fun _ => 0) pauseInputMix 400000000 running_world 0%nat Hq Hp).
Defined.

(** Holding the space bar runs [SimulateWorld] and sets the simulation
    running before the timed step is checked, so a frame with only space
    held advances two generations (and stamps [lastUpdate]) when strictly
    more than 300 ms have passed since [lastUpdate], even from a paused
    world, and one generation otherwise. *)
Theorem Update_space draw cx cy now w i :
  Update draw (spaceInput cx cy) now w i
  = Some ((Continue,
           if now - lastUpdate w >? stepInterval
           then set_lastUpdate (SimulateWorld (SimulateWorld w)) now
           else SimulateWorld w), i).
Proof. reflexivity. Qed.

(** [lastUpdate] only ever moves to the current time, and only in a frame
    that ends with the simulation running. *)
Theorem Update_lastUpdate draw inp now w i :
  match Update draw inp now w i with
  | Some ((_, w'), _) =>
      lastUpdate w' = lastUpdate w \/ (lastUpdate w' = now /\ isSimulating w' = true)
  | None => True
  end.
Proof.
  unfold Update. destruct (keyEscape inp || keyQ inp); [by left|].
  open_frame draw inp w i; frame_cases; simpl in *; try discriminate; auto.
Qed.




(** * Drawing *)


